(** * Namespace of socket.io (src/lib/namespace.ts): a shallow embedding

    The namespace keeps its connected sockets in [sockets], its middleware
    chain in [_fns] and one adapter.  Admission ([_add]) runs the middleware
    chain through continuations ([run]) and, one tick later, registers the
    socket or reports the error.  Targeting methods ([to], [in], [except],
    [compress], [volatile], [local]) and [emit] delegate to a fresh
    [BroadcastOperator], whose code lives in src/lib/broadcast-operator.ts. *)

From Stdlib Require Import ZArith String.
From stdpp Require Import base gmap sets list strings.

Open Scope string_scope.
Open Scope list_scope.
Open Scope nat_scope.
Set Warnings "-register-all".

(* ------------------------------------------------------------------ *)
(** ** JavaScript values carried by errors *)

(** The [data] field of an [ExtendedError] is [any]; a missing field is
    [undefined]. *)
Inductive JSVal :=
| JUndefined
| JNull
| JBool (b : bool)
| JNum (z : Z)
| JNaN
| JStr (s : string)
| JObj (tag : nat).

(** JavaScript truthiness, as used by [||] and [if (...)]. *)
Definition truthy (v : JSVal) : bool :=
  match v with
  | JUndefined | JNull | JNaN => false
  | JBool b => b
  | JNum z => negb (Z.eqb z 0)
  | JStr s => negb (String.eqb s "")
  | JObj _ => true
  end.

(** [a || b] *)
Definition js_or (a b : JSVal) : JSVal := if truthy a then a else b.

(** [interface ExtendedError extends Error { data?: any }] *)
Record ExtendedError := mkError { err_message : string; err_data : JSVal }.

(* ------------------------------------------------------------------ *)
(** ** Collaborators: sockets and clients *)

(** The per-connection [Socket] is consumed through its [id]. *)
Record Socket := mkSocket { socket_id : string }.

(** [client.conn]: its [readyState] and its protocol revision. *)
Record Client := mkClient { conn_readyState : string; conn_protocol : Z }.

(** Payload handed to [socket._error]: a raw value (protocol 3) or the
    object [{message, data}]. *)
Inductive ErrPayload :=
| PRaw (v : JSVal)
| PStruct (message : string) (data : JSVal).

(** Observable effects, in the order they happen. *)
Inductive Event :=
| EvMwRan (i : nat) (name : nat)         (* fns[i] was called *)
| EvSet (id : string)                    (* this.sockets.set(id, socket) *)
| EvOnconnect (id : string)              (* socket._onconnect() *)
| EvCallback                             (* fn() *)
| EvNotify (ev : string) (id : string)   (* super.emit(ev, socket) *)
| EvError (id : string) (p : ErrPayload) (* socket._error(p) *)
| EvDebug (msg : string).                (* debug(...) *)

(* ------------------------------------------------------------------ *)
(** ** Middleware *)

(** What a middleware does with its continuation [next] for one admission:
    [next()], [next(err)], or never calls it.  A middleware calls [next] at
    most once. *)
Inductive Outcome :=
| NextOk
| NextErr (e : ExtendedError)
| NoNext.

(** A middleware function: a name (its identity) and its behaviour on a
    socket: the functions it registers with [use] while it runs, and what it
    does with [next]. *)
Inductive Mw := mkMw {
  mw_name : nat;
  mw_body : Socket -> list Mw * Outcome
}.

(* ------------------------------------------------------------------ *)
(** ** Namespace state *)

Record NsState := mkNs {
  ns_name : string;
  sockets : gmap string Socket;
  adapter : nat;          (* identity of the adapter instance *)
  _fns : list Mw;
  _ids : nat
}.

Definition set_sockets (st : NsState) (m : gmap string Socket) : NsState :=
  mkNs (ns_name st) m (adapter st) (_fns st) (_ids st).

Definition set_fns (st : NsState) (fns : list Mw) : NsState :=
  mkNs (ns_name st) (sockets st) (adapter st) fns (_ids st).

(** [use(fn)]: [this._fns.push(fn)] *)
Definition use (st : NsState) (fn : Mw) : NsState :=
  set_fns st (_fns st ++ [fn]).

(** Result of [run]: the final callback [fn(err)] was called with [err],
    or it is never called (a middleware never called [next]). *)
Inductive RunResult :=
| Pending
| Done (err : option ExtendedError).

(** The inner [run(i)] of [Namespace.run]; [fns] is the suffix of the
    snapshot starting at index [i].  Functions passed to [use] while
    [fns[i]] runs are pushed onto [this._fns], not onto the snapshot. *)
Fixpoint run_from (fns : list Mw) (i : nat) (socket : Socket) (st : NsState)
  : NsState * list Event * RunResult :=
  match fns with
  | [] => (st, [], Done None)
  | f :: rest =>
      let '(uses, out) := mw_body f socket in
      let st1 := set_fns st (_fns st ++ uses) in
      let ev := EvMwRan i (mw_name f) in
      match out with
      | NoNext => (st1, [ev], Pending)
      | NextErr e => (st1, [ev], Done (Some e))      (* if (err) return fn(err) *)
      | NextOk =>
          match rest with
          | [] => (st1, [ev], Done None)             (* if (!fns[i + 1]) return fn(null) *)
          | _ :: _ =>
              let '(st2, evs, r) := run_from rest (S i) socket st1 in
              (st2, ev :: evs, r)                    (* run(i + 1) *)
          end
      end
  end.

(** [Namespace.run(socket, fn)] *)
Definition run (st : NsState) (socket : Socket) : NsState * list Event * RunResult :=
  let fns := _fns st in                               (* this._fns.slice(0) *)
  match fns with
  | [] => (st, [], Done None)                         (* if (!fns.length) return fn(null) *)
  | _ :: _ => run_from fns 0 socket st
  end.

(** The body scheduled with [process.nextTick] by [_add]; [client] is the
    client as it is when the tick runs, [fn] tells whether a completion
    callback was given. *)
Definition add_tick (st : NsState) (client : Client) (socket : Socket)
    (fn : bool) (err : option ExtendedError) : NsState * list Event :=
  let id := socket_id socket in
  if String.eqb "open" (conn_readyState client) then
    match err with
    | Some e =>
        if Z.eqb (conn_protocol client) 3 then
          (st, [EvError id (PRaw (js_or (err_data e) (JStr (err_message e))))])
        else
          (st, [EvError id (PStruct (err_message e) (err_data e))])
    | None =>
        let st1 := set_sockets st (<[id := socket]> (sockets st)) in
        (st1, [EvSet id; EvOnconnect id]
                ++ (if fn then [EvCallback] else [])
                ++ [EvNotify "connect" id; EvNotify "connection" id])
    end
  else
    (st, [EvDebug "next called after client was closed - ignoring socket"]).

(** [Namespace._add(client, query, fn)] for the socket built by
    [new Socket(this, client, query)]. *)
Definition _add (st : NsState) (socket : Socket) (client_at_tick : Client)
    (fn : bool) : NsState * list Event :=
  let ev0 := EvDebug "adding socket to nsp" in
  let '(st1, evs, r) := run st socket in
  match r with
  | Pending => (st1, ev0 :: evs)
  | Done err =>
      let '(st2, evs2) := add_tick st1 client_at_tick socket fn err in
      (st2, ev0 :: evs ++ evs2)
  end.

(** [Namespace._remove(socket)] *)
Definition _remove (st : NsState) (socket : Socket) : NsState * list Event :=
  let id := socket_id socket in
  match sockets st !! id with
  | Some _ => (set_sockets st (delete id (sockets st)), [])
  | None => (st, [EvDebug "ignoring remove"])
  end.

(* ------------------------------------------------------------------ *)
(** ** Broadcast operator *)

(** Modelled from the spec: [BroadcastOperator] of
    src/lib/broadcast-operator.ts (not among the sources), after §4.2: an
    immutable builder over [{rooms, exceptRooms, flags}] bound to one
    adapter. *)
Record Flags := mkFlags {
  fl_volatile : bool;
  fl_local : bool;
  fl_compress : option bool
}.

Record BroadcastOperator := mkBO {
  bo_adapter : nat;
  bo_rooms : gset string;
  bo_exceptRooms : gset string;
  bo_flags : Flags
}.

(** The argument [room: Room | Room[]]. *)
Inductive RoomArg :=
| ROne (r : string)
| RMany (rs : list string).

Definition room_set (a : RoomArg) : gset string :=
  match a with
  | ROne r => {[ r ]}
  | RMany rs => list_to_set rs
  end.

(** Modelled from the spec: [new BroadcastOperator(adapter)], empty
    targeting state and no flag. *)
Definition bo_new (adp : nat) : BroadcastOperator :=
  mkBO adp ∅ ∅ (mkFlags false false None).

(** The builder methods shared by the namespace and the operator. *)
Inductive BoMethod :=
| MTo (room : RoomArg)
| MIn (room : RoomArg)
| MExcept (room : RoomArg)
| MCompress (b : bool)
| MVolatile
| MLocal.

(** Modelled from the spec: the targeting state of the operator a builder
    method returns (§4.2: [to]/[in] union into [rooms], [except] into
    [exceptRooms], flag methods set one flag). *)
Definition bo_apply (op : BroadcastOperator) (m : BoMethod) : BroadcastOperator :=
  let fl := bo_flags op in
  match m with
  | MTo r | MIn r =>
      mkBO (bo_adapter op) (bo_rooms op ∪ room_set r) (bo_exceptRooms op) fl
  | MExcept r =>
      mkBO (bo_adapter op) (bo_rooms op) (bo_exceptRooms op ∪ room_set r) fl
  | MCompress b =>
      mkBO (bo_adapter op) (bo_rooms op) (bo_exceptRooms op)
           (mkFlags (fl_volatile fl) (fl_local fl) (Some b))
  | MVolatile =>
      mkBO (bo_adapter op) (bo_rooms op) (bo_exceptRooms op)
           (mkFlags true (fl_local fl) (fl_compress fl))
  | MLocal =>
      mkBO (bo_adapter op) (bo_rooms op) (bo_exceptRooms op)
           (mkFlags (fl_volatile fl) true (fl_compress fl))
  end.

(** Operators are JavaScript objects: a heap of operators addressed by
    location, with the next free location. *)
Record Heap := mkHeap {
  heap_ops : gmap positive BroadcastOperator;
  heap_next : positive
}.

(** [new BroadcastOperator(...)]: a fresh object. *)
Definition alloc (h : Heap) (op : BroadcastOperator) : Heap * positive :=
  (mkHeap (<[heap_next h := op]> (heap_ops h)) (Pos.succ (heap_next h)),
   heap_next h).

Definition heap_wf (h : Heap) : Prop :=
  ∀ l, is_Some (heap_ops h !! l) → (l < heap_next h)%positive.

(** Modelled from the spec: calling a builder method on the operator at
    [l]; it returns a new operator and leaves the receiver as it is. *)
Definition bo_call (h : Heap) (l : positive) (m : BoMethod) : option (Heap * positive) :=
  op ← heap_ops h !! l;
  Some (alloc h (bo_apply op m)).

(** [Namespace.to/in/except/compress/volatile/local]:
    [return new BroadcastOperator(this.adapter).m(arg)].  The namespace
    state is returned as the method leaves it. *)
Definition ns_call (st : NsState) (h : Heap) (m : BoMethod)
  : option (NsState * Heap * positive) :=
  let '(h1, l0) := alloc h (bo_new (adapter st)) in
  '(h2, l) ← bo_call h1 l0 m;
  Some (st, h2, l).

Definition to (st : NsState) (h : Heap) (room : RoomArg) := ns_call st h (MTo room).
Definition in_ (st : NsState) (h : Heap) (room : RoomArg) := ns_call st h (MIn room).
Definition except (st : NsState) (h : Heap) (room : RoomArg) := ns_call st h (MExcept room).
Definition compress (st : NsState) (h : Heap) (b : bool) := ns_call st h (MCompress b).
Definition volatile (st : NsState) (h : Heap) := ns_call st h MVolatile.
Definition local (st : NsState) (h : Heap) := ns_call st h MLocal.

(** A chain [op.m1(..).m2(..)...] on the operator at [l]. *)
Fixpoint bo_chain (h : Heap) (l : positive) (ms : list BoMethod) : option (Heap * positive) :=
  match ms with
  | [] => Some (h, l)
  | m :: ms' => '(h1, l1) ← bo_call h l m; bo_chain h1 l1 ms'
  end.

(** A broadcast built on the namespace: [nsp.m1(..).m2(..)...]; with no
    call at all, the namespace's own terminal methods use
    [new BroadcastOperator(this.adapter)]. *)
Definition ns_chain (st : NsState) (h : Heap) (ms : list BoMethod) : option (Heap * positive) :=
  match ms with
  | [] => Some (alloc h (bo_new (adapter st)))
  | m :: ms' => '(_, h1, l1) ← ns_call st h m; bo_chain h1 l1 ms'
  end.

(** Rooms accumulated by the [to]/[in] calls and by the [except] calls of
    a chain. *)
Definition target_rooms (m : BoMethod) : gset string :=
  match m with MTo r | MIn r => room_set r | _ => ∅ end.
Definition excluded_rooms (m : BoMethod) : gset string :=
  match m with MExcept r => room_set r | _ => ∅ end.
Definition to_union (ms : list BoMethod) : gset string := ⋃ (map target_rooms ms).
Definition except_union (ms : list BoMethod) : gset string := ⋃ (map excluded_rooms ms).

(* ------------------------------------------------------------------ *)
(** ** Adapter *)

(** Modelled from the spec: the in-memory adapter (socket.io-adapter, not
    among the sources), §4.3.  Its state maps each socket id of the
    namespace to the rooms it is a member of. *)
Definition room_members (sids : gmap string (gset string)) (r : string) : gset string :=
  dom (filter (λ kv : string * gset string, r ∈ kv.2) sids).

Definition members_of (sids : gmap string (gset string)) (rs : gset string) : gset string :=
  ⋃ (map (room_members sids) (elements rs)).

(** Modelled from the spec: [adapter.sockets({rooms, except})]: the ids of
    the members of the excepted rooms are removed from the members of the
    targeted rooms, or from every socket when no room is targeted. *)
Definition adapter_sockets (sids : gmap string (gset string))
    (rooms except : gset string) : gset string :=
  let excluded := members_of sids except in
  if decide (rooms = ∅) then dom sids ∖ excluded
  else members_of sids rooms ∖ excluded.

(** The sockets a broadcast through the operator at [l] reaches. *)
Definition matched (sids : gmap string (gset string)) (h : Heap) (l : positive)
  : option (gset string) :=
  op ← heap_ops h !! l;
  Some (adapter_sockets sids (bo_rooms op) (bo_exceptRooms op)).

(* ------------------------------------------------------------------ *)
(** ** Emitting *)

(** Modelled from the spec: the reserved event names of §4.2. *)
Definition RESERVED_EVENTS : list string :=
  ["connect"; "connecting"; "connection"; "disconnect"; "disconnecting";
   "newListener"; "removeListener"].

Record Packet := mkPacket { pk_event : string; pk_args : list JSVal }.

(** Calls made on the adapter. *)
Inductive AdapterCall :=
| ABroadcast (p : Packet) (rooms except : gset string) (flags : Flags).

(** [emit] either throws or returns a value. *)
Inductive EmitResult :=
| EmitThrow (msg : string)
| EmitReturn (b : bool).

(** Modelled from the spec: [BroadcastOperator.emit(ev, ...args)]: a
    reserved name is rejected with an error; any other event goes to the
    adapter's [broadcast] with the operator's targeting state, and [true]
    is returned. *)
Definition bo_emit (op : BroadcastOperator) (ev : string) (args : list JSVal)
  : EmitResult * list AdapterCall :=
  if decide (ev ∈ RESERVED_EVENTS) then
    (EmitThrow (ev ++ " is a reserved event name")%string, [])
  else
    (EmitReturn true,
     [ABroadcast (mkPacket ev args) (bo_rooms op) (bo_exceptRooms op) (bo_flags op)]).

(** [Namespace.emit(ev, ...args)]:
    [return new BroadcastOperator(this.adapter).emit(ev, ...args)]. *)
Definition emit (st : NsState) (ev : string) (args : list JSVal)
  : EmitResult * list AdapterCall :=
  bo_emit (bo_new (adapter st)) ev args.

(* ------------------------------------------------------------------ *)
(** ** Construction and the rest of the namespace surface *)

(** [_initAdapter()]: [this.adapter = new (this.server.adapter()!)(this)];
    [adp] is the identity of the adapter instance just constructed. *)
Definition _initAdapter (st : NsState) (adp : nat) : NsState :=
  mkNs (ns_name st) (sockets st) adp (_fns st) (_ids st).

(** [new Namespace(server, name)]: empty [sockets], empty [_fns],
    [_ids = 0], then [_initAdapter()] builds the adapter [adp]. *)
Definition Namespace_new (name : string) (adp : nat) : NsState :=
  _initAdapter (mkNs name ∅ 0 [] 0) adp.

(** [send(...args)] and [write(...args)]:
    [this.emit("message", ...args); return this;].  The result is the
    error [emit] throws, or [this]. *)
Definition send (st : NsState) (args : list JSVal) : (string + NsState) * list AdapterCall :=
  match emit st "message" args with
  | (EmitThrow msg, calls) => (inl msg, calls)
  | (EmitReturn _, calls) => (inr st, calls)
  end.

Definition write (st : NsState) (args : list JSVal) : (string + NsState) * list AdapterCall :=
  match emit st "message" args with
  | (EmitThrow msg, calls) => (inl msg, calls)
  | (EmitReturn _, calls) => (inr st, calls)
  end.

(** Modelled from the spec: [BroadcastOperator.allSockets()], the ids of
    the sockets matching the operator's target (§4.2), through the
    adapter's [sockets]. *)
Definition bo_allSockets (sids : gmap string (gset string)) (op : BroadcastOperator) : gset string :=
  adapter_sockets sids (bo_rooms op) (bo_exceptRooms op).

(** [allSockets()]: [new BroadcastOperator(this.adapter).allSockets()];
    [sids] is the membership table of the namespace's adapter. *)
Definition allSockets (st : NsState) (sids : gmap string (gset string)) : gset string :=
  bo_allSockets sids (bo_new (adapter st)).

(** Every entry of [sockets] is stored under its own socket's id. *)
Definition sockets_keyed (m : gmap string Socket) : Prop :=
  ∀ k s, m !! k = Some s → socket_id s = k.

(* ------------------------------------------------------------------ *)
(** ** Auxiliary views of a run *)

Definition mw_out (f : Mw) (s : Socket) : Outcome := snd (mw_body f s).
Definition mw_uses (f : Mw) (s : Socket) : list Mw := fst (mw_body f s).

(** The events of calling [fs[0]], [fs[1]], ... from index [i]. *)
Fixpoint ran_events (i : nat) (fs : list Mw) : list Event :=
  match fs with
  | [] => []
  | f :: fs' => EvMwRan i (mw_name f) :: ran_events (S i) fs'
  end.

Definition is_ran (ev : Event) : bool :=
  match ev with EvMwRan _ _ => true | _ => false end.

(* ------------------------------------------------------------------ *)
(** ** Sample middleware and namespaces *)

Definition mw_pass (n : nat) : Mw := mkMw n (λ _, ([], NextOk)).
Definition mw_fail (n : nat) (e : ExtendedError) : Mw := mkMw n (λ _, ([], NextErr e)).
(** A middleware that registers [g] with [use] and proceeds. *)
Definition mw_registers (n : nat) (g : Mw) : Mw := mkMw n (λ _, ([g], NextOk)).

Definition ns0 (fns : list Mw) : NsState := mkNs "/" ∅ 1 fns 0.
Definition sock1 : Socket := mkSocket "s1".
Definition open3 : Client := mkClient "open" 3.
Definition open4 : Client := mkClient "open" 4.
Definition closed4 : Client := mkClient "closed" 4.
Definition auth_failed : ExtendedError := mkError "auth failed" JUndefined.

(* ================================================================== *)
(** * Properties *)

Example run_three_pass :
  snd (fst (run (ns0 [mw_pass 10; mw_pass 11; mw_pass 12]) sock1))
  = [EvMwRan 0 10; EvMwRan 1 11; EvMwRan 2 12].
Proof. reflexivity. Qed.

Example add_scenario_B :
  snd (_add (ns0 [mw_fail 7 auth_failed]) sock1 open4 false)
  = [EvDebug "adding socket to nsp"; EvMwRan 0 7;
     EvError "s1" (PStruct "auth failed" JUndefined)].
Proof. reflexivity. Qed.

Lemma set_fns_set_fns st a b : set_fns (set_fns st a) b = set_fns st b.
Proof. by destruct st. Qed.

Lemma set_fns_id st : set_fns st (_fns st) = st.
Proof. by destruct st. Qed.

Lemma ran_events_app i xs ys :
  ran_events i (xs ++ ys) = ran_events i xs ++ ran_events (i + length xs) ys.
Proof.
  revert i. induction xs as [|x xs IH]; intros i; simpl.
  - by rewrite Nat.add_0_r.
  - rewrite IH. do 3 f_equal. lia.
Qed.

Lemma elem_of_ran_events i fs j n :
  EvMwRan j n ∈ ran_events i fs ↔
  ∃ f, i ≤ j ∧ fs !! (j - i) = Some f ∧ n = mw_name f.
Proof.
  revert i. induction fs as [|f fs IH]; intros i; simpl.
  - split; [intros H; inversion H|]. intros (g & _ & Hg & _). done.
  - rewrite elem_of_cons, IH. split.
    + intros [Heq | (g & Hle & Hg & ->)].
      * injection Heq as -> ->. exists f. rewrite Nat.sub_diag. done.
      * exists g. split; [lia|]. replace (j - i) with (S (j - S i)) by lia. done.
    + intros (g & Hle & Hg & ->).
      destruct (decide (j = i)) as [->|Hne].
      * left. rewrite Nat.sub_diag in Hg. simpl in Hg. by injection Hg as ->.
      * right. exists g. split; [lia|].
        replace (j - i) with (S (j - S i)) in Hg by lia. done.
Qed.

Lemma ran_events_is_ran i fs ev : ev ∈ ran_events i fs → is_ran ev = true.
Proof.
  revert i. induction fs as [|f fs IH]; intros i; simpl.
  - intros H; inversion H.
  - rewrite elem_of_cons. intros [-> | H]; [done | eauto].
Qed.

(** The shape of a run of the chain from index [i]: the calls are those of
    a prefix [take m fns] of the snapshot, every call but the last
    proceeded, and the last one decides the result. *)
Lemma run_from_shape fns i socket st st' evs r :
  run_from fns i socket st = (st', evs, r) →
  ∃ m, m ≤ length fns ∧
       evs = ran_events i (take m fns) ∧
       st' = set_fns st (_fns st ++ concat (map (λ f, mw_uses f socket) (take m fns))) ∧
       (∀ k g, S k < m → fns !! k = Some g → mw_out g socket = NextOk) ∧
       match r with
       | Done None => m = length fns ∧ ∀ k g, fns !! k = Some g → mw_out g socket = NextOk
       | Done (Some e) => ∃ g, fns !! (m - 1) = Some g ∧ mw_out g socket = NextErr e ∧ 1 ≤ m
       | Pending => ∃ g, fns !! (m - 1) = Some g ∧ mw_out g socket = NoNext ∧ 1 ≤ m
       end.
Proof.
  revert i st st' evs r.
  induction fns as [|f rest IH]; intros i st st' evs r Hrun; simpl in Hrun.
  - injection Hrun as <- <- <-. exists 0. simpl.
    rewrite app_nil_r, set_fns_id. repeat split; try done; intros; lia.
  - unfold mw_out, mw_uses.
    destruct (mw_body f socket) as [uses out] eqn:Hb. destruct out as [| e |].
    + destruct rest as [| f2 rest'].
      * injection Hrun as <- <- <-. exists 1. simpl. rewrite Hb. simpl.
        rewrite app_nil_r. repeat split; try done.
        -- intros k g Hk. lia.
        -- intros k g Hk. destruct k; simpl in Hk; [|done].
           injection Hk as <-. by rewrite Hb.
      * destruct (run_from (f2 :: rest') (S i) socket
                    (set_fns st (_fns st ++ uses))) as [[st2 evs2] r2] eqn:Hr.
        injection Hrun as <- <- <-.
        destruct (IH _ _ _ _ _ Hr) as (m & Hm & -> & -> & Hok & Hres).
        exists (S m). simpl. rewrite Hb. simpl.
        rewrite set_fns_set_fns. simpl. rewrite app_assoc.
        split; [simpl in Hm; lia|]. split; [done|]. split; [done|]. split.
        -- intros k g Hk Hg. destruct k as [|k]; simpl in Hg.
           ++ injection Hg as <-. by rewrite Hb.
           ++ apply (Hok k g); [lia|exact Hg].
        -- destruct r2 as [|[e|]].
           ++ destruct Hres as (g & Hg & Hout & Hm1).
              exists g. split; [|split; [done|lia]].
              replace (m - 0) with (S (m - 1)) by lia. exact Hg.
           ++ destruct Hres as (g & Hg & Hout & Hm1).
              exists g. split; [|split; [done|lia]].
              replace (m - 0) with (S (m - 1)) by lia. exact Hg.
           ++ destruct Hres as [-> Hall]. split; [done|].
              intros k g Hg. destruct k as [|k]; simpl in Hg.
              ** injection Hg as <-. by rewrite Hb.
              ** eauto.
    + injection Hrun as <- <- <-. exists 1. simpl. rewrite Hb. simpl.
      rewrite app_nil_r. split; [lia|]. split; [done|]. split; [done|].
      split; [intros k g Hk; lia|]. exists f. unfold mw_out. rewrite Hb.
      split; [done|]. split; [done|lia].
    + injection Hrun as <- <- <-. exists 1. simpl. rewrite Hb. simpl.
      rewrite app_nil_r. split; [lia|]. split; [done|]. split; [done|].
      split; [intros k g Hk; lia|]. exists f. unfold mw_out. rewrite Hb.
      split; [done|]. split; [done|lia].
Qed.

(** The same for [Namespace.run], over the snapshot [this._fns]. *)
Lemma run_shape st socket st' evs r :
  run st socket = (st', evs, r) →
  ∃ m, m ≤ length (_fns st) ∧
       evs = ran_events 0 (take m (_fns st)) ∧
       st' = set_fns st (_fns st ++ concat (map (λ f, mw_uses f socket) (take m (_fns st)))) ∧
       (∀ k g, S k < m → _fns st !! k = Some g → mw_out g socket = NextOk) ∧
       match r with
       | Done None => m = length (_fns st) ∧
                      ∀ k g, _fns st !! k = Some g → mw_out g socket = NextOk
       | Done (Some e) => ∃ g, _fns st !! (m - 1) = Some g ∧ mw_out g socket = NextErr e ∧ 1 ≤ m
       | Pending => ∃ g, _fns st !! (m - 1) = Some g ∧ mw_out g socket = NoNext ∧ 1 ≤ m
       end.
Proof.
  unfold run. intros Hrun. destruct (_fns st) as [|f fs] eqn:Hf.
  - injection Hrun as <- <- <-. exists 0. simpl.
    split; [lia|]. split; [done|]. split; [by destruct st; simpl in *; subst|].
    split; [intros; lia|]. split; [done|]. intros k g Hk; done.
  - destruct (run_from_shape _ _ _ _ _ _ _ Hrun) as (m & H1 & H2 & H3 & H4 & H5).
    rewrite Hf in H3. exists m. auto.
Qed.

Lemma sockets_set_fns st fns : sockets (set_fns st fns) = sockets st.
Proof. by destruct st. Qed.

Lemma fns_set_sockets st m : _fns (set_sockets st m) = _fns st.
Proof. by destruct st. Qed.

(** Closing membership goals in short literal lists. *)
Ltac literal_mem H :=
  apply list_elem_of_In in H; simpl in H; intuition subst; try done.

(** The tick never calls a middleware and keeps [_fns]. *)
Lemma add_tick_no_ran st c s fn err ev :
  ev ∈ snd (add_tick st c s fn err) → is_ran ev = false.
Proof.
  unfold add_tick. intros H.
  repeat case_match; simpl in H; literal_mem H.
Qed.

Lemma add_tick_fns st c s fn err : _fns (fst (add_tick st c s fn err)) = _fns st.
Proof.
  unfold add_tick. repeat case_match; simpl; try done; apply fns_set_sockets.
Qed.

(** The log of [_add]: the debug line, the calls of the chain, then the
    effects of the tick (if the chain completed). *)
Lemma add_log_shape st socket client fn st' log :
  _add st socket client fn = (st', log) →
  ∃ st1 evs r tail,
    run st socket = (st1, evs, r) ∧
    log = EvDebug "adding socket to nsp" :: evs ++ tail ∧
    (∀ ev, ev ∈ tail → is_ran ev = false) ∧
    match r with
    | Pending => tail = [] ∧ st' = st1
    | Done err => (st', tail) = add_tick st1 client socket fn err
    end.
Proof.
  unfold _add. destruct (run st socket) as [[st1 evs] r] eqn:Hrun.
  destruct r as [|err].
  - intros H. injection H as <- <-. exists st1, evs, Pending, [].
    rewrite app_nil_r. repeat split; try done. intros ev Hev. inversion Hev.
  - destruct (add_tick st1 client socket fn err) as [st2 evs2] eqn:Ht.
    intros H. injection H as <- <-. exists st1, evs, (Done err), evs2.
    repeat split; try done. intros ev Hev. eapply add_tick_no_ran. by rewrite Ht.
Qed.

Lemma ran_in_log fs tail j n :
  (∀ ev, ev ∈ tail → is_ran ev = false) →
  EvMwRan j n ∈ EvDebug "adding socket to nsp" :: ran_events 0 fs ++ tail →
  ∃ g, fs !! j = Some g ∧ n = mw_name g.
Proof.
  intros Htail H. rewrite elem_of_cons, elem_of_app in H.
  destruct H as [H | [H | H]]; [discriminate | | by apply Htail in H].
  apply elem_of_ran_events in H as (g & _ & Hg & ->).
  rewrite Nat.sub_0_r in Hg. eauto.
Qed.

(** Claim C1: once the middleware at index [k] calls [next] with an error,
    no middleware at a larger index is called, and the socket is not added
    to [sockets]. *)
Theorem middleware_error_short_circuits (st : NsState) (socket : Socket)
    (client : Client) (fn : bool) (k n : nat) (f : Mw) (e : ExtendedError)
    (st' : NsState) (log : list Event) :
  _fns st !! k = Some f →
  mw_out f socket = NextErr e →
  _add st socket client fn = (st', log) →
  EvMwRan k n ∈ log →
  (∀ j n', EvMwRan j n' ∈ log → j ≤ k) ∧
  sockets st' = sockets st ∧
  (∀ id, EvSet id ∉ log).
Proof.
  intros Hf Hout Hadd Hin.
  destruct (add_log_shape _ _ _ _ _ _ Hadd) as (st1 & evs & r & tail & Hrun & -> & Htail & Hr).
  destruct (run_shape _ _ _ _ _ Hrun) as (m & Hm & -> & -> & Hok & Hres).
  assert (Hlt : ∀ j n', EvMwRan j n' ∈ EvDebug "adding socket to nsp"
                          :: ran_events 0 (take m (_fns st)) ++ tail → j < m).
  { intros j n' H. apply ran_in_log in H as (g & Hg & _); [|done].
    by apply lookup_take_Some in Hg as [_ ?]. }
  pose proof (Hlt _ _ Hin) as Hkm.
  assert (m = S k) as ->.
  { destruct (decide (S k < m)) as [Hsk|Hsk]; [|lia].
    rewrite (Hok k f Hsk Hf) in Hout. discriminate. }
  split; [intros j n' H; apply Hlt in H; lia|].
  replace (S k - 1) with k in Hres by lia.
  destruct r as [|[e'|]].
  - destruct Hres as (g & Hg & Hg' & _). rewrite Hf in Hg. injection Hg as <-.
    congruence.
  - unfold add_tick in Hr.
    destruct (String.eqb _ _); [destruct (Z.eqb (conn_protocol client) 3)|];
      injection Hr as -> ->;
      rewrite sockets_set_fns; split; try done; intros id Hid;
      rewrite elem_of_cons, elem_of_app in Hid;
      (destruct Hid as [Hid | [Hid | Hid]];
       [discriminate | by apply ran_events_is_ran in Hid | literal_mem Hid]).
  - destruct Hres as [_ Hall]. rewrite (Hall k f Hf) in Hout. discriminate.
Qed.

Lemma middleware_error_short_circuits_witness :
  let st := ns0 [mw_pass 10; mw_fail 11 auth_failed; mw_pass 12] in
  _fns st !! 1 = Some (mw_fail 11 auth_failed) ∧
  mw_out (mw_fail 11 auth_failed) sock1 = NextErr auth_failed ∧
  EvMwRan 1 11 ∈ snd (_add st sock1 open4 false) ∧
  (∀ j n', EvMwRan j n' ∈ snd (_add st sock1 open4 false) → j ≤ 1) ∧
  sockets (fst (_add st sock1 open4 false)) = sockets st ∧
  (∀ id, EvSet id ∉ snd (_add st sock1 open4 false)).
Proof.
  intros st. split; [reflexivity|]. split; [reflexivity|].
  split; [apply list_elem_of_In; simpl; tauto|].
  apply (middleware_error_short_circuits st sock1 open4 false 1 11
           (mw_fail 11 auth_failed) auth_failed
           (fst (_add st sock1 open4 false)) (snd (_add st sock1 open4 false)));
    [reflexivity | reflexivity | reflexivity | apply list_elem_of_In; simpl; tauto].
Defined.

(** Claim C2: when the chain completes without error and the transport is
    open, the tick registers the socket under its id, then runs
    [_onconnect], then the callback (if any), then fires [connect] and
    [connection], each once and in this order; nothing else happens after
    the calls of the chain. *)
Theorem admission_success_order (st : NsState) (socket : Socket) (client : Client)
    (fn : bool) (st1 : NsState) (evs : list Event) :
  run st socket = (st1, evs, Done None) →
  conn_readyState client = "open" →
  _add st socket client fn =
    (set_sockets st1 (<[socket_id socket := socket]> (sockets st)),
     EvDebug "adding socket to nsp" :: evs ++
       [EvSet (socket_id socket); EvOnconnect (socket_id socket)] ++
       (if fn then [EvCallback] else []) ++
       [EvNotify "connect" (socket_id socket); EvNotify "connection" (socket_id socket)]) ∧
  (∀ ev, ev ∈ evs → is_ran ev = true).
Proof.
  intros Hrun Hopen.
  destruct (run_shape _ _ _ _ _ Hrun) as (m & _ & Hevs & Hst1 & _ & _).
  split.
  - unfold _add. rewrite Hrun. unfold add_tick. rewrite Hopen. simpl.
    rewrite Hst1, sockets_set_fns. reflexivity.
  - intros ev Hev. rewrite Hevs in Hev. by eapply ran_events_is_ran.
Qed.

Lemma admission_success_order_witness :
  run (ns0 [mw_pass 10]) sock1 = ((ns0 [mw_pass 10]), [EvMwRan 0 10], Done None) ∧
  conn_readyState open4 = "open" ∧
  _add (ns0 [mw_pass 10]) sock1 open4 true =
    (set_sockets (ns0 [mw_pass 10]) (<[ "s1" := sock1 ]> ∅),
     [EvDebug "adding socket to nsp"; EvMwRan 0 10; EvSet "s1"; EvOnconnect "s1";
      EvCallback; EvNotify "connect" "s1"; EvNotify "connection" "s1"]) ∧
  (∀ ev, ev ∈ [EvMwRan 0 10] → is_ran ev = true).
Proof.
  split; [reflexivity|]. split; [reflexivity|].
  exact (admission_success_order (ns0 [mw_pass 10]) sock1 open4 true
           (ns0 [mw_pass 10]) [EvMwRan 0 10] eq_refl eq_refl).
Defined.

(** Claim C4: if the transport is not open when the tick runs, [_add]
    leaves [sockets] as it was and does nothing but call middleware and
    log: no [_error], no registration, no [_onconnect], no notification. *)
Theorem closed_transport_abandons (st : NsState) (socket : Socket) (client : Client)
    (fn : bool) (st' : NsState) (log : list Event) :
  conn_readyState client ≠ "open" →
  _add st socket client fn = (st', log) →
  sockets st' = sockets st ∧
  ∀ ev, ev ∈ log → is_ran ev = true ∨ ∃ msg, ev = EvDebug msg.
Proof.
  intros Hclosed Hadd.
  destruct (add_log_shape _ _ _ _ _ _ Hadd) as (st1 & evs & r & tail & Hrun & -> & _ & Hr).
  destruct (run_shape _ _ _ _ _ Hrun) as (m & _ & -> & -> & _ & _).
  assert (Htick : ∀ err, add_tick (set_fns st (_fns st ++
                     concat (map (λ f, mw_uses f socket) (take m (_fns st)))))
                     client socket fn err =
                  (set_fns st (_fns st ++
                     concat (map (λ f, mw_uses f socket) (take m (_fns st)))),
                   [EvDebug "next called after client was closed - ignoring socket"])).
  { intros err. unfold add_tick.
    destruct (String.eqb_spec "open" (conn_readyState client)) as [Heq|_];
      [by destruct Hclosed|reflexivity]. }
  assert (Hlog : ∀ ev, ev ∈ EvDebug "adding socket to nsp"
                   :: ran_events 0 (take m (_fns st)) ++ tail →
                 ev ∈ tail ∨ is_ran ev = true ∨ ∃ msg, ev = EvDebug msg).
  { intros ev H. rewrite elem_of_cons, elem_of_app in H.
    destruct H as [-> | [H | H]]; eauto using ran_events_is_ran. }
  destruct r as [|err].
  - destruct Hr as [-> ->]. rewrite sockets_set_fns. split; [done|].
    intros ev H. apply Hlog in H as [H | H]; [inversion H | done].
  - rewrite Htick in Hr. injection Hr as -> ->.
    rewrite sockets_set_fns. split; [done|].
    intros ev H. apply Hlog in H as [H | H]; [|done].
    right. literal_mem H. eauto.
Qed.

Lemma closed_transport_abandons_witness :
  conn_readyState closed4 ≠ "open" ∧
  sockets (fst (_add (ns0 [mw_pass 10]) sock1 closed4 true)) = sockets (ns0 [mw_pass 10]) ∧
  ∀ ev, ev ∈ snd (_add (ns0 [mw_pass 10]) sock1 closed4 true) →
        is_ran ev = true ∨ ∃ msg, ev = EvDebug msg.
Proof.
  assert (H : conn_readyState closed4 ≠ "open") by discriminate.
  split; [exact H|].
  exact (closed_transport_abandons (ns0 [mw_pass 10]) sock1 closed4 true
           (fst (_add (ns0 [mw_pass 10]) sock1 closed4 true))
           (snd (_add (ns0 [mw_pass 10]) sock1 closed4 true)) H eq_refl).
Defined.

(** Claim C5, as the code does it: when a middleware error ends the chain
    and the transport is open, the only effect of the tick is
    [socket._error(p)]: on protocol 3, [p] is the raw value
    [err.data || err.message] (the data when it is truthy, the message
    otherwise); on any other protocol [p] is [{message, data}].  The socket
    is not added to [sockets]. *)
Theorem middleware_error_payload (st : NsState) (socket : Socket) (client : Client)
    (fn : bool) (st1 : NsState) (evs : list Event) (e : ExtendedError) :
  run st socket = (st1, evs, Done (Some e)) →
  conn_readyState client = "open" →
  _add st socket client fn =
    (st1, EvDebug "adding socket to nsp" :: evs ++
       [EvError (socket_id socket)
          (if Z.eqb (conn_protocol client) 3
           then PRaw (if truthy (err_data e) then err_data e else JStr (err_message e))
           else PStruct (err_message e) (err_data e))]) ∧
  sockets st1 = sockets st.
Proof.
  intros Hrun Hopen.
  destruct (run_shape _ _ _ _ _ Hrun) as (m & _ & _ & Hst1 & _ & _).
  split.
  - unfold _add. rewrite Hrun. unfold add_tick. rewrite Hopen. simpl.
    by destruct (Z.eqb _ _).
  - rewrite Hst1. apply sockets_set_fns.
Qed.

Lemma middleware_error_payload_witness :
  let e := mkError "auth failed" (JStr "bad token") in
  run (ns0 [mw_fail 7 e]) sock1 = (ns0 [mw_fail 7 e], [EvMwRan 0 7], Done (Some e)) ∧
  conn_readyState open3 = "open" ∧
  _add (ns0 [mw_fail 7 e]) sock1 open3 false =
    (ns0 [mw_fail 7 e], [EvDebug "adding socket to nsp"; EvMwRan 0 7;
                         EvError "s1" (PRaw (JStr "bad token"))]) ∧
  sockets (ns0 [mw_fail 7 e]) = sockets (ns0 [mw_fail 7 e]).
Proof.
  intros e. split; [reflexivity|]. split; [reflexivity|].
  exact (middleware_error_payload (ns0 [mw_fail 7 e]) sock1 open3 false
           (ns0 [mw_fail 7 e]) [EvMwRan 0 7] e eq_refl eq_refl).
Defined.

(** Claim C5 as stated fails: on protocol 3 an error whose [data] field is
    present but falsy ([0] here) yields the message text, not the data. *)
Lemma legacy_payload_ignores_falsy_data :
  let e := mkError "auth failed" (JNum 0) in
  snd (_add (ns0 [mw_fail 7 e]) sock1 open3 false) =
    [EvDebug "adding socket to nsp"; EvMwRan 0 7;
     EvError "s1" (PRaw (JStr "auth failed"))] ∧
  err_data e ≠ JUndefined ∧
  PRaw (JStr "auth failed") ≠ PRaw (err_data e).
Proof. simpl. split; [reflexivity|]. split; discriminate. Qed.

(** Claim C7: [_remove] for an id absent from [sockets] leaves the whole
    namespace state as it is and only logs; hence a second [_remove] of the
    same socket changes nothing and its state is that of a single call. *)
Theorem _remove_idempotent (st : NsState) (socket : Socket) :
  (sockets st !! socket_id socket = None →
   _remove st socket = (st, [EvDebug "ignoring remove"])) ∧
  fst (_remove (fst (_remove st socket)) socket) = fst (_remove st socket) ∧
  snd (_remove (fst (_remove st socket)) socket) = [EvDebug "ignoring remove"].
Proof.
  assert (Habsent : ∀ st0 : NsState, sockets st0 !! socket_id socket = None →
            _remove st0 socket = (st0, [EvDebug "ignoring remove"])).
  { intros st0 H. unfold _remove. by rewrite H. }
  split; [apply Habsent|].
  assert (Hgone : sockets (fst (_remove st socket)) !! socket_id socket = None).
  { unfold _remove. destruct (sockets st !! socket_id socket) eqn:Hl; [|done].
    destruct st; simpl. apply lookup_delete_eq. }
  by rewrite (Habsent _ Hgone).
Qed.

Lemma _remove_idempotent_witness :
  let st := set_sockets (ns0 []) (<[ "s1" := sock1 ]> ∅) in
  sockets (ns0 []) !! socket_id sock1 = None ∧
  _remove (ns0 []) sock1 = (ns0 [], [EvDebug "ignoring remove"]) ∧
  fst (_remove (fst (_remove st sock1)) sock1) = fst (_remove st sock1) ∧
  snd (_remove (fst (_remove st sock1)) sock1) = [EvDebug "ignoring remove"].
Proof.
  intros st. split; [reflexivity|].
  split; [exact (proj1 (_remove_idempotent (ns0 []) sock1) eq_refl)|].
  exact (proj2 (_remove_idempotent st sock1)).
Defined.

(** Claim C10: the middleware called by an admission are, in order, a
    prefix of the chain as it was when [_add] started (the whole chain when
    every middleware proceeds); a function passed to [use] meanwhile is only
    appended to [_fns] for later admissions. *)
Theorem pipeline_runs_snapshot (st : NsState) (socket : Socket) (client : Client)
    (fn : bool) (st' : NsState) (log : list Event) :
  _add st socket client fn = (st', log) →
  ∃ m tail,
    m ≤ length (_fns st) ∧
    log = EvDebug "adding socket to nsp" :: ran_events 0 (take m (_fns st)) ++ tail ∧
    (∀ ev, ev ∈ tail → is_ran ev = false) ∧
    _fns st' = _fns st ++ concat (map (λ f, mw_uses f socket) (take m (_fns st))) ∧
    ((∀ k g, _fns st !! k = Some g → mw_out g socket = NextOk) → m = length (_fns st)).
Proof.
  intros Hadd.
  destruct (add_log_shape _ _ _ _ _ _ Hadd) as (st1 & evs & r & tail & Hrun & -> & Htail & Hr).
  destruct (run_shape _ _ _ _ _ Hrun) as (m & Hm & -> & Hst1 & _ & Hres).
  exists m, tail. split; [done|]. split; [done|]. split; [done|]. split.
  - destruct r as [|err].
    + destruct Hr as [_ ->]. by rewrite Hst1.
    + assert (st' = fst (add_tick st1 client socket fn err)) as -> by (rewrite <- Hr; done).
      by rewrite add_tick_fns, Hst1.
  - intros Hall. destruct r as [|[e|]].
    + destruct Hres as (g & Hg & Hout & _). rewrite (Hall _ _ Hg) in Hout. discriminate.
    + destruct Hres as (g & Hg & Hout & _). rewrite (Hall _ _ Hg) in Hout. discriminate.
    + by destruct Hres.
Qed.

(** A middleware that registers [mw_pass 2] with [use]: the new function
    is not called for the admission in flight. *)
Lemma pipeline_runs_snapshot_witness :
  let st := ns0 [mw_registers 1 (mw_pass 2); mw_pass 3] in
  ∃ m tail,
    m ≤ length (_fns st) ∧
    snd (_add st sock1 open4 false)
      = EvDebug "adding socket to nsp" :: ran_events 0 (take m (_fns st)) ++ tail ∧
    (∀ ev, ev ∈ tail → is_ran ev = false) ∧
    _fns (fst (_add st sock1 open4 false))
      = _fns st ++ concat (map (λ f, mw_uses f sock1) (take m (_fns st))) ∧
    ((∀ k g, _fns st !! k = Some g → mw_out g sock1 = NextOk) → m = length (_fns st)).
Proof.
  intros st.
  exact (pipeline_runs_snapshot st sock1 open4 false
           (fst (_add st sock1 open4 false)) (snd (_add st sock1 open4 false)) eq_refl).
Defined.

Example pipeline_snapshot_run :
  snd (_add (ns0 [mw_registers 1 (mw_pass 2); mw_pass 3]) sock1 open4 false)
  = [EvDebug "adding socket to nsp"; EvMwRan 0 1; EvMwRan 1 3; EvSet "s1";
     EvOnconnect "s1"; EvNotify "connect" "s1"; EvNotify "connection" "s1"] ∧
  map mw_name (_fns (fst (_add (ns0 [mw_registers 1 (mw_pass 2); mw_pass 3]) sock1 open4 false)))
  = [1; 3; 2].
Proof. split; reflexivity. Qed.

(* ------------------------------------------------------------------ *)
(** ** Broadcast operator: allocation and targeting *)

Lemma alloc_lookup_new h op : heap_ops (fst (alloc h op)) !! snd (alloc h op) = Some op.
Proof. simpl. apply lookup_insert_eq. Qed.

(** Allocation keeps every existing operator and hands out a location not
    in use. *)
Lemma alloc_fresh h op :
  heap_wf h →
  heap_ops h !! snd (alloc h op) = None ∧
  (∀ l0 op0, heap_ops h !! l0 = Some op0 → heap_ops (fst (alloc h op)) !! l0 = Some op0) ∧
  heap_wf (fst (alloc h op)).
Proof.
  intros Hwf. simpl. split; [|split].
  - destruct (heap_ops h !! heap_next h) eqn:Hl; [|done].
    specialize (Hwf (heap_next h) (mk_is_Some _ _ Hl)). lia.
  - intros l0 op0 Hl0. rewrite lookup_insert_ne; [done|].
    intros Heq. subst l0. specialize (Hwf _ (mk_is_Some _ _ Hl0)). lia.
  - unfold heap_wf. simpl. intros l0 [op0 Hl0].
    destruct (decide (l0 = heap_next h)) as [Heq|Hne]; [subst l0; lia|].
    rewrite lookup_insert_ne in Hl0 by done.
    specialize (Hwf l0 (mk_is_Some _ _ Hl0)). lia.
Qed.

Lemma bo_call_some h l op m :
  heap_ops h !! l = Some op →
  bo_call h l m = Some (alloc h (bo_apply op m)).
Proof. intros Hl. unfold bo_call. by rewrite Hl. Qed.

Lemma bo_chain_some h l op ms :
  heap_ops h !! l = Some op →
  ∃ h' l', bo_chain h l ms = Some (h', l') ∧
           heap_ops h' !! l' = Some (foldl bo_apply op ms).
Proof.
  revert h l op. induction ms as [|m ms IH]; intros h l op Hl; simpl.
  - eauto.
  - rewrite (bo_call_some _ _ _ _ Hl). simpl.
    apply IH. apply lookup_insert_eq.
Qed.

Lemma ns_call_some st h m :
  ns_call st h m =
  Some (st, fst (alloc (fst (alloc h (bo_new (adapter st)))) (bo_apply (bo_new (adapter st)) m)),
        snd (alloc (fst (alloc h (bo_new (adapter st)))) (bo_apply (bo_new (adapter st)) m))).
Proof.
  unfold ns_call. simpl. unfold bo_call. simpl. rewrite lookup_insert_eq. done.
Qed.

Lemma foldl_bo_apply op ms :
  bo_adapter (foldl bo_apply op ms) = bo_adapter op ∧
  bo_rooms (foldl bo_apply op ms) = bo_rooms op ∪ to_union ms ∧
  bo_exceptRooms (foldl bo_apply op ms) = bo_exceptRooms op ∪ except_union ms.
Proof.
  revert op. induction ms as [|m ms IH]; intros op; simpl.
  - unfold to_union, except_union. simpl. split; [done|]. split; set_solver.
  - destruct (IH (bo_apply op m)) as (H1 & H2 & H3).
    rewrite H1, H2, H3. unfold to_union, except_union. simpl.
    destruct m; simpl; split; try done; split; set_solver.
Qed.

Lemma elem_of_room_members sids r id :
  id ∈ room_members sids r ↔ ∃ rs, sids !! id = Some rs ∧ r ∈ rs.
Proof.
  unfold room_members. rewrite elem_of_dom. split.
  - intros [rs Hrs]. apply map_lookup_filter_Some in Hrs as [? ?]. eauto.
  - intros (rs & Hrs & Hr). exists rs. apply map_lookup_filter_Some. done.
Qed.

Lemma elem_of_members_of sids rooms id :
  id ∈ members_of sids rooms ↔ ∃ r rs, r ∈ rooms ∧ sids !! id = Some rs ∧ r ∈ rs.
Proof.
  unfold members_of. rewrite elem_of_union_list. split.
  - intros (X & HX & Hid). apply list_elem_of_fmap in HX as (r & -> & Hr).
    apply elem_of_elements in Hr. apply elem_of_room_members in Hid as (rs & ? & ?).
    eauto.
  - intros (r & rs & Hr & Hrs & Hin). exists (room_members sids r). split.
    + apply list_elem_of_fmap. exists r. split; [done|]. by apply elem_of_elements.
    + apply elem_of_room_members. eauto.
Qed.

Lemma ns_chain_some st h ms :
  ∃ h' l, ns_chain st h ms = Some (h', l) ∧
          heap_ops h' !! l = Some (foldl bo_apply (bo_new (adapter st)) ms).
Proof.
  destruct ms as [|m ms]; simpl.
  - eexists _, _. split; [reflexivity|]. apply alloc_lookup_new.
  - rewrite ns_call_some. simpl. apply bo_chain_some. apply lookup_insert_eq.
Qed.

(** Claim C3: after any chain of [to]/[in]/[except] (and flag) calls on the
    namespace, the operator's [rooms] and [exceptRooms] are the unions of
    the rooms passed to [to]/[in] and to [except], and the sockets it
    reaches are the members of some targeted room (every socket when no
    room is targeted) that are members of no excepted room. *)
Theorem broadcast_target_set (st : NsState) (h : Heap) (ms : list BoMethod)
    (sids : gmap string (gset string)) :
  ∃ h' l op,
    ns_chain st h ms = Some (h', l) ∧ heap_ops h' !! l = Some op ∧
    bo_rooms op = to_union ms ∧ bo_exceptRooms op = except_union ms ∧
    ∀ id, id ∈ adapter_sockets sids (bo_rooms op) (bo_exceptRooms op) ↔
      (is_Some (sids !! id) ∧
       (to_union ms = ∅ ∨ ∃ r rs, r ∈ to_union ms ∧ sids !! id = Some rs ∧ r ∈ rs)) ∧
      ¬ (∃ r rs, r ∈ except_union ms ∧ sids !! id = Some rs ∧ r ∈ rs).
Proof.
  destruct (ns_chain_some st h ms) as (h' & l & Hch & Hl).
  destruct (foldl_bo_apply (bo_new (adapter st)) ms) as (_ & Hr & He).
  simpl in Hr, He. rewrite union_empty_l_L in Hr, He.
  exists h', l, (foldl bo_apply (bo_new (adapter st)) ms).
  split; [done|]. split; [done|]. split; [done|]. split; [done|].
  intros id. rewrite Hr, He. unfold adapter_sockets.
  case_decide as Hemp.
  - rewrite elem_of_difference, elem_of_dom, elem_of_members_of. tauto.
  - rewrite elem_of_difference, !elem_of_members_of. split.
    + intros [(r & rs & Hr' & Hrs & Hin) Hex]. split; [|done].
      split; [by exists rs|]. right. eauto.
    + intros [[_ [Hc | Hin]] Hex]; [done|]. done.
Qed.

Example broadcast_scenario_C :
  adapter_sockets (<[ "e1" := {[ "r"; "e1" ]} ]> (<[ "e2" := {[ "r"; "e2" ]} ]> ∅))
                  ∅ {[ "r" ]} = ∅.
Proof. unfold adapter_sockets. rewrite decide_True by done. set_solver. Qed.

(** Claim C8: each targeting or flag method of the namespace returns a new
    operator at a location not in use, bound to the namespace's adapter,
    keeps every existing operator, and returns the namespace state as it
    was; a method called on an existing operator likewise returns a new
    operator and leaves the receiver (and every other operator) as it was. *)
Theorem builder_methods_fresh (st : NsState) (h : Heap) (m : BoMethod) :
  heap_wf h →
  (∃ h' l op,
     ns_call st h m = Some (st, h', l) ∧
     heap_ops h !! l = None ∧ heap_ops h' !! l = Some op ∧ bo_adapter op = adapter st ∧
     (∀ l0 op0, heap_ops h !! l0 = Some op0 → heap_ops h' !! l0 = Some op0) ∧
     heap_wf h') ∧
  (∀ l op, heap_ops h !! l = Some op →
     ∃ h' l',
       bo_call h l m = Some (h', l') ∧
       heap_ops h !! l' = None ∧ heap_ops h' !! l' = Some (bo_apply op m) ∧
       bo_adapter (bo_apply op m) = bo_adapter op ∧
       (∀ l0 op0, heap_ops h !! l0 = Some op0 → heap_ops h' !! l0 = Some op0) ∧
       heap_wf h').
Proof.
  intros Hwf. split.
  - rewrite ns_call_some.
    set (h1 := fst (alloc h (bo_new (adapter st)))).
    set (op := bo_apply (bo_new (adapter st)) m).
    destruct (alloc_fresh h (bo_new (adapter st)) Hwf) as (_ & Hkeep1 & Hwf1).
    fold h1 in Hkeep1, Hwf1.
    destruct (alloc_fresh h1 op Hwf1) as (Hnew & Hkeep2 & Hwf2).
    eexists _, _, op. split; [reflexivity|]. split.
    + destruct (heap_ops h !! snd (alloc h1 op)) as [op0|] eqn:Hl; [|done].
      apply Hkeep1 in Hl. congruence.
    + split; [apply alloc_lookup_new|]. split; [by destruct m|].
      split; [|done]. intros l0 op0 Hl0. by apply Hkeep2, Hkeep1.
  - intros l op Hl. rewrite (bo_call_some _ _ _ _ Hl).
    destruct (alloc_fresh h (bo_apply op m) Hwf) as (Hnew & Hkeep & Hwf').
    eexists _, _. split; [reflexivity|]. split; [done|].
    split; [apply alloc_lookup_new|]. split; [by destruct m|]. done.
Qed.

Lemma builder_methods_fresh_witness :
  let h := mkHeap (<[ 1%positive := bo_new 1 ]> ∅) 2 in
  let st := ns0 [] in
  let m := MTo (ROne "room1") in
  heap_wf h ∧
  (∃ h' l op,
     ns_call st h m = Some (st, h', l) ∧
     heap_ops h !! l = None ∧ heap_ops h' !! l = Some op ∧ bo_adapter op = adapter st ∧
     (∀ l0 op0, heap_ops h !! l0 = Some op0 → heap_ops h' !! l0 = Some op0) ∧
     heap_wf h') ∧
  (∀ l op, heap_ops h !! l = Some op →
     ∃ h' l',
       bo_call h l m = Some (h', l') ∧
       heap_ops h !! l' = None ∧ heap_ops h' !! l' = Some (bo_apply op m) ∧
       bo_adapter (bo_apply op m) = bo_adapter op ∧
       (∀ l0 op0, heap_ops h !! l0 = Some op0 → heap_ops h' !! l0 = Some op0) ∧
       heap_wf h').
Proof.
  intros h st m.
  assert (Hwf : heap_wf h).
  { intros l [op Hl]. unfold h in Hl. simpl in Hl.
    destruct (decide (l = 1%positive)) as [->|Hne]; [simpl; lia|].
    rewrite lookup_insert_ne in Hl by done. discriminate. }
  split; [exact Hwf|].
  exact (builder_methods_fresh st h m Hwf).
Defined.

(** Claim C6: [emit] on the namespace with a reserved event name throws,
    and the adapter's [broadcast] is not called. *)
Theorem reserved_event_rejected (st : NsState) (ev : string) (args : list JSVal) :
  ev ∈ ["connect"; "connecting"; "connection"; "disconnect"; "disconnecting";
        "newListener"; "removeListener"] →
  ∃ msg, emit st ev args = (EmitThrow msg, []).
Proof.
  intros Hres. unfold emit, bo_emit. rewrite decide_True by exact Hres. eauto.
Qed.

Lemma reserved_event_rejected_witness :
  "connection" ∈ ["connect"; "connecting"; "connection"; "disconnect"; "disconnecting";
                  "newListener"; "removeListener"] ∧
  ∃ msg, emit (ns0 []) "connection" [JStr "x"] = (EmitThrow msg, []).
Proof.
  assert (H : "connection" ∈ ["connect"; "connecting"; "connection"; "disconnect";
                              "disconnecting"; "newListener"; "removeListener"])
    by (apply list_elem_of_In; simpl; tauto).
  split; [exact H|]. exact (reserved_event_rejected (ns0 []) "connection" [JStr "x"] H).
Defined.

(** Claim C9: [emit] on the namespace with any other event name returns
    [true]; the result depends neither on the adapter's sockets nor on the
    delivery: the single effect is one call of the adapter's [broadcast]
    with an untargeted, unflagged request. *)
Theorem emit_returns_true (st : NsState) (ev : string) (args : list JSVal) :
  ev ∉ RESERVED_EVENTS →
  emit st ev args =
    (EmitReturn true, [ABroadcast (mkPacket ev args) ∅ ∅ (mkFlags false false None)]).
Proof. intros Hnr. unfold emit, bo_emit. by rewrite decide_False by exact Hnr. Qed.

Lemma emit_returns_true_witness :
  ("greet" ∉ RESERVED_EVENTS) ∧
  emit (ns0 []) "greet" [JStr "hi"] =
    (EmitReturn true, [ABroadcast (mkPacket "greet" [JStr "hi"]) ∅ ∅ (mkFlags false false None)]).
Proof.
  assert (H : "greet" ∉ RESERVED_EVENTS).
  { intros Hin. apply list_elem_of_In in Hin. simpl in Hin.
    repeat (destruct Hin as [Hin|Hin]; [discriminate|]). exact Hin. }
  split; [exact H|]. exact (emit_returns_true (ns0 []) "greet" [JStr "hi"] H).
Defined.

(* ------------------------------------------------------------------ *)
(** ** Further properties of the namespace *)

Lemma foldl_use st fs : foldl use st fs = set_fns st (_fns st ++ fs).
Proof.
  revert st. induction fs as [|f fs IH]; intros st; simpl.
  - by rewrite app_nil_r, set_fns_id.
  - rewrite IH. unfold use. rewrite set_fns_set_fns. simpl. by rewrite <- app_assoc.
Qed.

Lemma run_from_all_pass fns i socket st :
  (∀ f, f ∈ fns → mw_body f socket = ([], NextOk)) →
  run_from fns i socket st = (st, ran_events i fns, Done None).
Proof.
  revert i st. induction fns as [|f rest IH]; intros i st Hall; simpl; [done|].
  rewrite (Hall f) by apply list_elem_of_here.
  rewrite app_nil_r, set_fns_id.
  destruct rest as [|f2 rest']; [done|].
  rewrite IH; [done|]. intros g Hg. apply Hall. by apply list_elem_of_further.
Qed.

(** Middleware registered with successive [use] calls run in registration
    order, after those already in the chain: when every middleware proceeds
    (and registers nothing), [run] calls exactly the chain, in order, and
    completes without error. *)
Theorem use_then_run_in_order (st : NsState) (fs : list Mw) (socket : Socket) :
  (∀ f, f ∈ _fns st ++ fs → mw_body f socket = ([], NextOk)) →
  run (foldl use st fs) socket =
    (foldl use st fs, ran_events 0 (_fns st ++ fs), Done None).
Proof.
  intros Hall. rewrite foldl_use. unfold run. simpl.
  destruct (_fns st ++ fs) as [|f fs']; [done|].
  by apply run_from_all_pass.
Qed.

Lemma use_then_run_in_order_witness :
  (∀ f, f ∈ _fns (ns0 [mw_pass 1]) ++ [mw_pass 2; mw_pass 3] →
        mw_body f sock1 = ([], NextOk)) ∧
  run (foldl use (ns0 [mw_pass 1]) [mw_pass 2; mw_pass 3]) sock1 =
    (foldl use (ns0 [mw_pass 1]) [mw_pass 2; mw_pass 3],
     ran_events 0 (_fns (ns0 [mw_pass 1]) ++ [mw_pass 2; mw_pass 3]), Done None).
Proof.
  assert (H : ∀ f, f ∈ _fns (ns0 [mw_pass 1]) ++ [mw_pass 2; mw_pass 3] →
                   mw_body f sock1 = ([], NextOk)).
  { intros f Hf. apply list_elem_of_In in Hf. simpl in Hf.
    intuition subst; reflexivity. }
  split; [exact H|]. exact (use_then_run_in_order (ns0 [mw_pass 1]) _ sock1 H).
Defined.

(** A freshly constructed namespace has no middleware: a socket whose
    transport is open is admitted at once, [sockets] becomes exactly
    [{id ↦ socket}], and the tick runs its usual sequence. *)
Theorem fresh_namespace_admits (name : string) (adp : nat) (socket : Socket)
    (client : Client) (fn : bool) :
  conn_readyState client = "open" →
  _add (Namespace_new name adp) socket client fn =
    (set_sockets (Namespace_new name adp) {[ socket_id socket := socket ]},
     [EvDebug "adding socket to nsp"; EvSet (socket_id socket);
      EvOnconnect (socket_id socket)] ++
     (if fn then [EvCallback] else []) ++
     [EvNotify "connect" (socket_id socket); EvNotify "connection" (socket_id socket)]).
Proof. intros Hopen. unfold _add, add_tick. simpl. by rewrite Hopen. Qed.

Lemma fresh_namespace_admits_witness :
  conn_readyState open4 = "open" ∧
  _add (Namespace_new "/" 5) sock1 open4 false =
    (set_sockets (Namespace_new "/" 5) {[ "s1" := sock1 ]},
     [EvDebug "adding socket to nsp"; EvSet "s1"; EvOnconnect "s1"] ++ [] ++
     [EvNotify "connect" "s1"; EvNotify "connection" "s1"]).
Proof.
  split; [reflexivity|].
  exact (fresh_namespace_admits "/" 5 sock1 open4 false eq_refl).
Defined.

(** [_add] only ever writes [sockets] at the socket's own id: it either
    leaves [sockets] as it was or sets the socket there. *)
Lemma add_sockets_cases st socket client fn :
  sockets (fst (_add st socket client fn)) = sockets st ∨
  sockets (fst (_add st socket client fn)) = <[socket_id socket := socket]> (sockets st).
Proof.
  destruct (_add st socket client fn) as [st' log] eqn:Hadd. simpl.
  destruct (add_log_shape _ _ _ _ _ _ Hadd) as (st1 & evs & r & tail & Hrun & _ & _ & Hr).
  destruct (run_shape _ _ _ _ _ Hrun) as (m & _ & _ & Hst1 & _ & _).
  assert (Hs1 : sockets st1 = sockets st) by (rewrite Hst1; apply sockets_set_fns).
  destruct r as [|err].
  - destruct Hr as [_ ->]. by left.
  - unfold add_tick in Hr.
    destruct (String.eqb _ _); [destruct err; [destruct (Z.eqb _ _)|]|];
      injection Hr as -> _; simpl; rewrite ?Hs1; [left|left|right|left]; done.
Qed.

(** [_add] leaves every entry of [sockets] under another id as it was; the
    entry under the socket's id is either unchanged or the new socket. *)
Theorem add_only_touches_own_id (st : NsState) (socket : Socket) (client : Client) (fn : bool) :
  (∀ k, k ≠ socket_id socket →
        sockets (fst (_add st socket client fn)) !! k = sockets st !! k) ∧
  (sockets (fst (_add st socket client fn)) !! socket_id socket = sockets st !! socket_id socket ∨
   sockets (fst (_add st socket client fn)) !! socket_id socket = Some socket).
Proof.
  destruct (add_sockets_cases st socket client fn) as [-> | ->].
  - split; [done|]. by left.
  - split.
    + intros k Hk. by rewrite lookup_insert_ne.
    + right. apply lookup_insert_eq.
Qed.

(** [_remove] deletes the socket's id from [sockets], whether it was there
    or not, and changes nothing else. *)
Theorem remove_deletes_id (st : NsState) (socket : Socket) :
  fst (_remove st socket) = set_sockets st (delete (socket_id socket) (sockets st)).
Proof.
  unfold _remove. destruct (sockets st !! socket_id socket) eqn:Hl; [done|].
  simpl. rewrite delete_id by done. by destruct st.
Qed.

(** Round trip: for a socket whose id is not in [sockets], [_add] followed
    by [_remove] of the same socket leaves [sockets] as it was, whether the
    admission succeeded, was rejected, or was abandoned. *)
Theorem add_then_remove_restores (st : NsState) (socket : Socket) (client : Client) (fn : bool) :
  sockets st !! socket_id socket = None →
  sockets (fst (_remove (fst (_add st socket client fn)) socket)) = sockets st.
Proof.
  intros Habs. rewrite remove_deletes_id. simpl.
  destruct (add_sockets_cases st socket client fn) as [-> | ->].
  - by apply delete_id.
  - by apply delete_insert_id.
Qed.

Lemma add_then_remove_restores_witness :
  sockets (ns0 [mw_pass 1]) !! socket_id sock1 = None ∧
  sockets (fst (_remove (fst (_add (ns0 [mw_pass 1]) sock1 open4 true)) sock1))
    = sockets (ns0 [mw_pass 1]).
Proof.
  assert (H : sockets (ns0 [mw_pass 1]) !! socket_id sock1 = None) by reflexivity.
  split; [exact H|]. exact (add_then_remove_restores _ sock1 open4 true H).
Defined.

(** Invariant: every entry of [sockets] is stored under its own socket's
    id.  A new namespace has it, and [_add], [_remove] and [use] keep it. *)
Theorem sockets_keyed_invariant (name : string) (adp : nat) :
  sockets_keyed (sockets (Namespace_new name adp)) ∧
  ∀ st : NsState, sockets_keyed (sockets st) →
    (∀ socket client fn, sockets_keyed (sockets (fst (_add st socket client fn)))) ∧
    (∀ socket, sockets_keyed (sockets (fst (_remove st socket)))) ∧
    (∀ f, sockets_keyed (sockets (use st f))).
Proof.
  split.
  - intros k s Hk. simpl in Hk. by rewrite lookup_empty in Hk.
  - intros st Hkey. split; [|split].
    + intros socket client fn.
      destruct (add_sockets_cases st socket client fn) as [-> | ->]; [done|].
      intros k s Hk. destruct (decide (k = socket_id socket)) as [->|Hne].
      * rewrite lookup_insert_eq in Hk. by injection Hk as <-.
      * rewrite lookup_insert_ne in Hk by done. by apply Hkey.
    + intros socket. rewrite remove_deletes_id. simpl.
      intros k s Hk. destruct (decide (k = socket_id socket)) as [->|Hne].
      * by rewrite lookup_delete_eq in Hk.
      * rewrite lookup_delete_ne in Hk by done. by apply Hkey.
    + intros f. unfold use. by rewrite sockets_set_fns.
Qed.

Lemma sockets_keyed_invariant_witness :
  let st := set_sockets (ns0 []) {[ "s1" := sock1 ]} in
  sockets_keyed (sockets st) ∧
  sockets_keyed (sockets (Namespace_new "/" 5)) ∧
  ((∀ socket client fn, sockets_keyed (sockets (fst (_add st socket client fn)))) ∧
   (∀ socket, sockets_keyed (sockets (fst (_remove st socket)))) ∧
   (∀ f, sockets_keyed (sockets (use st f)))).
Proof.
  intros st.
  assert (H : sockets_keyed (sockets st)).
  { intros k s Hk. simpl in Hk. destruct (decide (k = "s1")) as [->|Hne].
    - rewrite lookup_singleton_eq in Hk. by injection Hk as <-.
    - rewrite lookup_singleton_ne in Hk by done. discriminate. }
  split; [exact H|].
  split; [exact (proj1 (sockets_keyed_invariant "/" 5))|].
  exact (proj2 (sockets_keyed_invariant "/" 5) st H).
Defined.

(** A middleware that never calls [next] stalls the admission for good:
    the middleware after it never run, the tick is never scheduled, so the
    socket is neither registered nor sent an error nor announced. *)
Theorem hung_middleware_stalls (st : NsState) (socket : Socket) (client : Client)
    (fn : bool) (k : nat) (f : Mw) :
  _fns st !! k = Some f →
  mw_out f socket = NoNext →
  (∀ j g, j < k → _fns st !! j = Some g → mw_out g socket = NextOk) →
  snd (_add st socket client fn) =
    EvDebug "adding socket to nsp" :: ran_events 0 (take (S k) (_fns st)) ∧
  sockets (fst (_add st socket client fn)) = sockets st.
Proof.
  intros Hf Hout Hbefore.
  destruct (_add st socket client fn) as [st' log] eqn:Hadd. simpl.
  destruct (add_log_shape _ _ _ _ _ _ Hadd) as (st1 & evs & r & tail & Hrun & -> & _ & Hr).
  destruct (run_shape _ _ _ _ _ Hrun) as (m & Hm & -> & Hst1 & Hok & Hres).
  (* the last middleware called is [f] *)
  assert (Hlast : ∀ g o, _fns st !! (m - 1) = Some g → mw_out g socket = o →
                  o ≠ NextOk → 1 ≤ m → m = S k).
  { intros g o Hg Hg' Hne H1.
    destruct (lt_eq_lt_dec (m - 1) k) as [[Hlt|Heq]|Hgt].
    - rewrite (Hbefore _ _ Hlt Hg) in Hg'. by subst o.
    - lia.
    - rewrite (Hok k f ltac:(lia) Hf) in Hout. discriminate. }
  destruct r as [|[e|]].
  - destruct Hres as (g & Hg & Hg' & H1).
    pose proof (Hlast g NoNext Hg Hg' ltac:(discriminate) H1) as ->.
    destruct Hr as [-> ->]. rewrite app_nil_r, Hst1, sockets_set_fns. done.
  - destruct Hres as (g & Hg & Hg' & H1).
    pose proof (Hlast g _ Hg Hg' ltac:(discriminate) H1) as ->.
    replace (S k - 1) with k in Hg by lia. rewrite Hf in Hg. injection Hg as <-.
    congruence.
  - destruct Hres as [_ Hall]. rewrite (Hall k f Hf) in Hout. discriminate.
Qed.

Lemma hung_middleware_stalls_witness :
  let hang := mkMw 8 (λ _, ([], NoNext)) in
  let st := ns0 [mw_pass 7; hang; mw_pass 9] in
  _fns st !! 1 = Some hang ∧ mw_out hang sock1 = NoNext ∧
  (∀ j g, j < 1 → _fns st !! j = Some g → mw_out g sock1 = NextOk) ∧
  snd (_add st sock1 open4 true) =
    EvDebug "adding socket to nsp" :: ran_events 0 (take 2 (_fns st)) ∧
  sockets (fst (_add st sock1 open4 true)) = sockets st.
Proof.
  intros hang st.
  assert (H : ∀ j g, j < 1 → _fns st !! j = Some g → mw_out g sock1 = NextOk).
  { intros j g Hj Hg. destruct j; [|lia]. simpl in Hg. by injection Hg as <-. }
  split; [reflexivity|]. split; [reflexivity|]. split; [exact H|].
  exact (hung_middleware_stalls st sock1 open4 true 1 hang eq_refl eq_refl H).
Defined.

(** [send] and [write] are the same: each broadcasts a ["message"] event
    with the given arguments to the whole namespace (no room, no flag) and
    returns the namespace unchanged; ["message"] is not reserved, so they
    never throw. *)
Theorem send_write_broadcast_message (st : NsState) (args : list JSVal) :
  send st args = (inr st, [ABroadcast (mkPacket "message" args) ∅ ∅ (mkFlags false false None)]) ∧
  write st args = send st args.
Proof.
  assert (Hnr : "message" ∉ RESERVED_EVENTS).
  { intros Hin. apply list_elem_of_In in Hin. simpl in Hin.
    repeat (destruct Hin as [Hin|Hin]; [discriminate|]). exact Hin. }
  unfold write, send, emit, bo_emit. rewrite decide_False by exact Hnr. done.
Qed.

(** [allSockets] on the namespace goes through an untargeted operator: it
    answers every socket id the adapter knows. *)
Theorem allSockets_all (st : NsState) (sids : gmap string (gset string)) :
  allSockets st sids = dom sids.
Proof.
  unfold allSockets, bo_allSockets, adapter_sockets. simpl.
  rewrite decide_True by done.
  apply set_eq. intros id. rewrite elem_of_difference, elem_of_members_of.
  split; [tauto|]. intros Hid. split; [done|]. intros (r & rs & Hr & _). set_solver.
Qed.

